(** * GTPlanner: the Costmap2D weight cell

    A shallow embedding of [include/gtplanner/costmap2d.h],
    [src/costmap2d.cpp] and [test/test_dynamic_weights.cpp].

    The class [Costmap2D] keeps a [std::vector<double>] of cost weights
    behind a [std::mutex]. [updateWeights] replaces the vector under the
    lock; when the build defines [GTPLANNER_HAS_DYNAMIC_RECONFIGURE] the
    constructor registers [reconfigCB] with a dynamic_reconfigure server and
    the callback forwards two fields of the delivered configuration to
    [updateWeights].

    The file has four layers:
    - the class declaration as data (who may call what);
    - the member functions as programs of a small state monad over the
      object's members, where taking a held mutex blocks;
    - an interleaving semantics of threads running [updateWeights], in which
      the vector assignment is a sequence of element stores;
    - [updateWeights] once more with the storage of the copy in view, where
      the assignment may throw. *)

From Stdlib Require Import String List Bool Arith Lia NArith PrimFloat.
Import ListNotations.
Open Scope list_scope.

(** ** Data *)

(** A C++ [double]. Leibniz equality on primitive floats is identity of the
    value, which is what a copy preserves; [PrimFloat.eqb] is C++ [==]. *)
Definition double : Set := float.

(** [std::vector<double>]: an ordered sequence of any length. *)
Definition vector_double : Set := list double.

Definition uint32_t : Set := N.

(** Modelled from the spec: [gtplanner::CostWeightsConfig] is generated from
    a dynamic_reconfigure description that is not among the sources; the
    callback reads the two fields below, each a floating-point weight. *)
Record CostWeightsConfig : Set := mkConfig {
  obstacle_weight : double;
  inflation_weight : double
}.

(** [dynamic_reconfigure::Server<CostWeightsConfig>] belongs to an external
    library. The constructor only calls [setCallback] on it, so the server
    is described by what that call does to the object: the configurations
    (with their level masks) it hands to the freshly registered callback
    before [setCallback] returns. *)
Record Server : Set := mkServer {
  on_setCallback : list (CostWeightsConfig * uint32_t)
}.

(** The library's own server invokes the new callback once, with its current
    configuration and every level bit set. *)
Definition dynamic_reconfigure_server (current : CostWeightsConfig) : Server :=
  {| on_setCallback := [(current, 4294967295%N)] |}.

(** The two ways the translation unit compiles: without or with
    [GTPLANNER_HAS_DYNAMIC_RECONFIGURE]. *)
Inductive Build : Set :=
| CoreOnly
| HasDynamicReconfigure (srv : Server).

(** The data members of [Costmap2D] (costmap2d.h lines 18-21).
    [reconfig_srv_] exists only under the flag: [None] when compiled out,
    [Some registered] otherwise. [mtx_] is [true] while locked. *)
Record Costmap2D : Set := mkCostmap2D {
  reconfig_srv_ : option bool;
  mtx_ : bool;
  current_weights_ : vector_double
}.

Definition with_mtx (b : bool) (c : Costmap2D) : Costmap2D :=
  {| reconfig_srv_ := reconfig_srv_ c; mtx_ := b;
     current_weights_ := current_weights_ c |}.

Definition with_weights (w : vector_double) (c : Costmap2D) : Costmap2D :=
  {| reconfig_srv_ := reconfig_srv_ c; mtx_ := mtx_ c;
     current_weights_ := w |}.

Definition with_callback (c : Costmap2D) : Costmap2D :=
  {| reconfig_srv_ := option_map (fun _ => true) (reconfig_srv_ c);
     mtx_ := mtx_ c; current_weights_ := current_weights_ c |}.

(** The part of the object both builds have. *)
Definition core (c : Costmap2D) : bool * vector_double :=
  (mtx_ c, current_weights_ c).

(** ** The class declaration (costmap2d.h lines 11-22) *)

Inductive access : Set := public | private.

Inductive cpp_type : Set :=
| t_void
| t_vector_double
| t_const_vector_double_ref
| t_config_ref
| t_uint32
| t_mutex
| t_server.

Inductive member_kind : Set :=
| constructor (params : list cpp_type)
| method (params : list cpp_type) (ret : cpp_type)
| field (ty : cpp_type).

Record member : Set := mkMember {
  m_name : string;
  m_access : access;
  m_kind : member_kind;
  m_reconfigure_only : bool
}.

Definition Costmap2D_class : list member :=
  [ mkMember "Costmap2D" public (constructor []) false;
    mkMember "updateWeights" public
             (method [t_const_vector_double_ref] t_void) false;
    mkMember "reconfigCB" private
             (method [t_config_ref; t_uint32] t_void) true;
    mkMember "reconfig_srv_" private (field t_server) true;
    mkMember "mtx_" private (field t_mutex) false;
    mkMember "current_weights_" private (field t_vector_double) false ].

Definition declared_in (b : Build) (m : member) : bool :=
  match b with
  | CoreOnly => negb (m_reconfigure_only m)
  | HasDynamicReconfigure _ => true
  end.

Definition is_public (m : member) : bool :=
  match m_access m with public => true | private => false end.

Definition cpp_type_eqb (a b : cpp_type) : bool :=
  match a, b with
  | t_void, t_void | t_vector_double, t_vector_double
  | t_const_vector_double_ref, t_const_vector_double_ref
  | t_config_ref, t_config_ref | t_uint32, t_uint32
  | t_mutex, t_mutex | t_server, t_server => true
  | _, _ => false
  end.

(** A consumer-facing reader: a public member function without parameters
    whose result is the weight vector (by value or by const reference). *)
Definition is_reader (m : member) : bool :=
  is_public m &&
  match m_kind m with
  | method [] r =>
      cpp_type_eqb r t_vector_double || cpp_type_eqb r t_const_vector_double_ref
  | _ => false
  end.

(** ** Member functions *)

(** A call on the object either returns, leaving the object in a new state,
    or never gets past a [std::mutex] that is already held. *)
Inductive outcome (A : Type) : Type :=
| Done (a : A) (c : Costmap2D)
| Blocked.
Arguments Done {A} a c.
Arguments Blocked {A}.

Definition M (A : Type) : Type := Costmap2D -> outcome A.

Definition ret {A : Type} (a : A) : M A := fun c => Done a c.

Definition bind {A B : Type} (m : M A) (k : A -> M B) : M B :=
  fun c => match m c with
           | Done a c' => k a c'
           | Blocked => Blocked
           end.

Declare Scope cell_scope.
Delimit Scope cell_scope with cell.
Notation "x <- m ;; k" := (bind m (fun x => k))
  (at level 61, m at next level, right associativity) : cell_scope.
Notation "m ;; k" := (bind m (fun _ => k))
  (at level 61, right associativity) : cell_scope.
Open Scope cell_scope.

(** [std::lock_guard<std::mutex> lock(mtx_)]: construction takes the mutex,
    the end of the enclosing scope gives it back. *)
Definition lock_guard : M unit :=
  fun c => if mtx_ c then Blocked else Done tt (with_mtx true c).

Definition lock_guard_end : M unit :=
  fun c => Done tt (with_mtx false c).

(** [current_weights_ = w]: copy assignment of the whole vector. *)
Definition assign_current_weights (w : vector_double) : M unit :=
  fun c => Done tt (with_weights w c).

(** costmap2d.cpp lines 9-12. *)
Definition updateWeights (w : vector_double) : M unit :=
  lock_guard ;;
  assign_current_weights w ;;
  lock_guard_end.

(** costmap2d.cpp lines 15-17; the level mask is ignored. *)
Definition reconfigCB (cfg : CostWeightsConfig) (level : uint32_t) : M unit :=
  updateWeights [obstacle_weight cfg; inflation_weight cfg].

(** What [reconfig_srv_.setCallback(boost::bind(&Costmap2D::reconfigCB, this,
    _1, _2))] does to the object: the callback is recorded and then run on
    whatever the server delivers at once. *)
Fixpoint deliver (l : list (CostWeightsConfig * uint32_t)) : M unit :=
  match l with
  | [] => ret tt
  | (cfg, level) :: rest => reconfigCB cfg level ;; deliver rest
  end.

Definition setCallback (srv : Server) : M unit :=
  (fun c => Done tt (with_callback c)) ;;
  deliver (on_setCallback srv).

(** The members as default-initialised before the constructor body runs: an
    unlocked mutex and an empty vector. *)
Definition default_members (b : Build) : Costmap2D :=
  {| reconfig_srv_ := match b with
                      | CoreOnly => None
                      | HasDynamicReconfigure _ => Some false
                      end;
     mtx_ := false;
     current_weights_ := [] |}.

(** costmap2d.cpp lines 3-7. *)
Definition Costmap2D_ctor (b : Build) : outcome unit :=
  match b with
  | CoreOnly => ret tt (default_members b)
  | HasDynamicReconfigure srv => setCallback srv (default_members b)
  end.

(** The class has no accessor. The one read in the repository is the test's
    [cm.current_weights_[0]], which goes to the member itself and takes no
    lock; [operator[]] past the end has no defined result. *)
Definition peek_current_weights : M vector_double :=
  fun c => Done (current_weights_ c) c.

Definition index (v : vector_double) (i : nat) : option double :=
  nth_error v i.

(** test_dynamic_weights.cpp lines 4-8: [Some true] when the expectation
    holds, [Some false] when it fails, [None] when the run has no defined
    result (blocked or indexing past the end). *)
Definition DynamicWeightUpdate (b : Build) : option bool :=
  match Costmap2D_ctor b with
  | Done _ cm =>
      match updateWeights [2.0%float; 1.0%float] cm with
      | Done _ cm' =>
          match index (current_weights_ cm') 0 with
          | Some x => Some (PrimFloat.eqb x 2.0%float)
          | None => None
          end
      | Blocked => None
      end
  | Blocked => None
  end.

(** ** Sequences of operations on one object *)

(** What can happen to an object between construction and destruction: a
    caller's [updateWeights], the server running the callback on a later
    reconfiguration (only in the build that has one), and a read of the
    member. *)
Inductive op : Set :=
| call_updateWeights (w : vector_double)
| call_reconfigCB (cfg : CostWeightsConfig) (level : uint32_t)
| peek.

(** Runs the operations in order and collects what each [peek] saw. *)
Fixpoint run_ops (ops : list op) : M (list vector_double) :=
  match ops with
  | [] => ret []
  | call_updateWeights w :: rest => updateWeights w ;; run_ops rest
  | call_reconfigCB cfg level :: rest => reconfigCB cfg level ;; run_ops rest
  | peek :: rest =>
      v <- peek_current_weights ;;
      vs <- run_ops rest ;;
      ret (v :: vs)
  end.

(** The vector [reconfigCB] builds from a configuration. *)
Definition config_weights (cfg : CostWeightsConfig) : vector_double :=
  [obstacle_weight cfg; inflation_weight cfg].

(** The vectors handed whole to [updateWeights] by a sequence of operations,
    and by the constructor's callback deliveries. *)
Fixpoint written (ops : list op) : list vector_double :=
  match ops with
  | [] => []
  | call_updateWeights w :: rest => w :: written rest
  | call_reconfigCB cfg _ :: rest => config_weights cfg :: written rest
  | peek :: rest => written rest
  end.

Definition startup_written (b : Build) : list vector_double :=
  match b with
  | CoreOnly => []
  | HasDynamicReconfigure srv =>
      map (fun d => config_weights (fst d)) (on_setCallback srv)
  end.


Definition outcome_core {A : Type} (o : outcome A)
  : option (bool * vector_double) :=
  match o with
  | Done _ c => Some (core c)
  | Blocked => None
  end.

(** ** Threads calling [updateWeights] on one shared object *)

Definition tid : Set := nat.

(** Where a thread stands inside [updateWeights(w)]: before the
    [lock_guard] (line 10), inside the assignment (line 11) or before the
    guard's destructor (line 12). Copy assignment of a [std::vector] is not
    one step to another thread: the elements are stored one after another
    from the front and the size is set at the end ([k] elements stored so
    far). *)
Inductive pc : Set :=
| Outside
| AtLockGuard (w : vector_double)
| InAssign (w : vector_double) (k : nat)
| AtScopeExit (w : vector_double).

Definition in_critical_section (p : pc) : bool :=
  match p with
  | InAssign _ _ | AtScopeExit _ => true
  | Outside | AtLockGuard _ => false
  end.

(** The shared object, every thread's position, and the arguments of the
    calls made so far (newest first). *)
Record system : Type := mkSystem {
  cell : Costmap2D;
  threads : tid -> pc;
  passed : list vector_double
}.

Definition upd (t : tid) (p : pc) (f : tid -> pc) : tid -> pc :=
  fun u => if Nat.eqb u t then p else f u.

(** Storing element [k] of a vector: overwrites the element there, or puts a
    new one at the end when [k] is the current size. *)
Definition store_at (k : nat) (x : double) (v : vector_double)
  : vector_double :=
  firstn k v ++ x :: skipn (S k) v.

Inductive action : Set :=
| Enter (w : vector_double)
| Acquire
| CopyElement
| SetSize
| Release.

(** One step of thread [t]; [None] when the step is not enabled ([Acquire]
    on a held mutex in particular). *)
Definition step (t : tid) (a : action) (s : system) : option system :=
  match a, threads s t with
  | Enter w, Outside =>
      Some (mkSystem (cell s) (upd t (AtLockGuard w) (threads s))
                     (w :: passed s))
  | Acquire, AtLockGuard w =>
      match lock_guard (cell s) with
      | Done _ c => Some (mkSystem c (upd t (InAssign w 0) (threads s))
                                   (passed s))
      | Blocked => None
      end
  | CopyElement, InAssign w k =>
      match nth_error w k with
      | Some x =>
          Some (mkSystem
                  (with_weights (store_at k x (current_weights_ (cell s)))
                                (cell s))
                  (upd t (InAssign w (S k)) (threads s)) (passed s))
      | None => None
      end
  | SetSize, InAssign w k =>
      if Nat.eqb k (length w)
      then Some (mkSystem
                   (with_weights (firstn k (current_weights_ (cell s)))
                                 (cell s))
                   (upd t (AtScopeExit w) (threads s)) (passed s))
      else None
  | Release, AtScopeExit w =>
      match lock_guard_end (cell s) with
      | Done _ c => Some (mkSystem c (upd t Outside (threads s)) (passed s))
      | Blocked => None
      end
  | _, _ => None
  end.

Fixpoint exec (tr : list (tid * action)) (s : system) : option system :=
  match tr with
  | [] => Some s
  | (t, a) :: rest =>
      match step t a s with
      | Some s' => exec rest s'
      | None => None
      end
  end.

(** Every thread outside the function, nothing passed yet. *)
Definition start (c : Costmap2D) : system :=
  mkSystem c (fun _ => Outside) [].

(** One whole call by thread [t] with nobody else moving. *)
Definition solo_call (t : tid) (w : vector_double) : list (tid * action) :=
  (t, Enter w) :: (t, Acquire)
    :: repeat (t, CopyElement) (length w) ++ [(t, SetSize); (t, Release)].

(** Whole calls one after the other, each by the thread named with it. *)
Definition calls_in_turn (calls : list (tid * vector_double))
  : list (tid * action) :=
  flat_map (fun c => solo_call (fst c) (snd c)) calls.

(** A read that goes to the member without the lock, as the test does. *)
Definition unlocked_read (s : system) : vector_double :=
  current_weights_ (cell s).

(** The vectors a reader may rightfully see: the one the object started
    with, or one passed whole to some call. *)
Definition whole_values (c0 : Costmap2D) (s : system) : list vector_double :=
  current_weights_ c0 :: passed s.

(** What holds of every state the threads can reach from an object [c0]
    whose mutex is free. *)
Record serialized (c0 : Costmap2D) (s : system) : Prop := mkSerialized {
  cs_holds_mutex :
    forall t, in_critical_section (threads s t) = true -> mtx_ (cell s) = true;
  mutex_has_holder :
    mtx_ (cell s) = true ->
    exists t, in_critical_section (threads s t) = true;
  cs_exclusive :
    forall t u,
      in_critical_section (threads s t) = true ->
      in_critical_section (threads s u) = true -> t = u;
  free_is_whole :
    mtx_ (cell s) = false ->
    In (current_weights_ (cell s)) (whole_values c0 s);
  assign_prefix :
    forall t w k,
      threads s t = InAssign w k ->
      k <= length w /\
      firstn k (current_weights_ (cell s)) = firstn k w;
  exit_complete :
    forall t w,
      threads s t = AtScopeExit w -> current_weights_ (cell s) = w;
  args_passed :
    forall t w,
      threads s t = AtLockGuard w \/
      (exists k, threads s t = InAssign w k) \/
      threads s t = AtScopeExit w ->
      In w (passed s)
}.

(** Thread 0 writes [{1.0, 1.0}] to completion; thread 1 then enters with
    [{2.0, 2.0}], takes the mutex and stores its first element. *)
Definition torn_trace : list (tid * action) :=
  solo_call 0 [1.0%float; 1.0%float] ++
  [(1, Enter [2.0%float; 2.0%float]); (1, Acquire); (1, CopyElement)].

(** ** Reference values for runs and traces *)

(** What the reads of a sequence of operations return when the stored
    vector is [cur] at its start: each read sees the argument of the latest
    write before it. *)
Fixpoint reads (ops : list op) (cur : vector_double) : list vector_double :=
  match ops with
  | [] => []
  | call_updateWeights w :: rest => reads rest w
  | call_reconfigCB cfg _ :: rest => reads rest (config_weights cfg)
  | peek :: rest => cur :: reads rest cur
  end.

(** The argument a thread is in [updateWeights] with, if it is in it. *)
Definition argument (p : pc) : option vector_double :=
  match p with
  | Outside => None
  | AtLockGuard w | InAssign w _ | AtScopeExit w => Some w
  end.

(** The argument of the call that returned last along a trace: [arg] holds
    the argument each thread entered with, [last] the answer so far. *)
Fixpoint last_returned (tr : list (tid * action))
         (arg : tid -> option vector_double) (last : vector_double)
  : vector_double :=
  match tr with
  | [] => last
  | (t, Enter w) :: rest =>
      last_returned rest (fun u => if Nat.eqb u t then Some w else arg u) last
  | (t, Release) :: rest =>
      last_returned rest arg
                    (match arg t with Some w => w | None => last end)
  | _ :: rest => last_returned rest arg last
  end.




(** ** Storage for the copy *)

(** [current_weights_ = w] takes its storage from [std::allocator], which is
    outside the repository. It is described by the one thing the call
    depends on: whether the assignment from the current vector to [w] gets
    the storage it needs ([true] also when it needs none). *)
Record Heap : Type := mkHeap {
  assignable : vector_double -> vector_double -> bool
}.

(** How a call ends for its caller: it returns, it throws [std::bad_alloc],
    or it is still waiting for the mutex. *)
Inductive completion (A : Type) : Type :=
| Returned (a : A) (c : Costmap2D)
| Threw_bad_alloc (c : Costmap2D)
| Waiting.
Arguments Returned {A} a c.
Arguments Threw_bad_alloc {A} c.
Arguments Waiting {A}.

(** costmap2d.cpp lines 9-12 with the allocation in view. The function
    catches nothing and is not [noexcept]: when the storage cannot be had,
    the assignment throws before any element is changed, the unwinding runs
    the guard's destructor, and the exception reaches the caller. *)
Definition updateWeights_on (h : Heap) (w : vector_double)
  : Costmap2D -> completion unit :=
  fun c =>
    match lock_guard c with
    | Blocked => Waiting
    | Done _ c1 =>
        if assignable h (current_weights_ c1) w
        then match (assign_current_weights w ;; lock_guard_end) c1 with
             | Done _ c2 => Returned tt c2
             | Blocked => Waiting
             end
        else match lock_guard_end c1 with
             | Done _ c2 => Threw_bad_alloc c2
             | Blocked => Waiting
             end
    end.

(** A heap with room for one [double] only. *)
Definition one_double_heap : Heap :=
  {| assignable := fun _ w => Nat.leb (length w) 1 |}.

(** * Lemmas *)

(** ** Single calls *)

Lemma updateWeights_unlocked (w : vector_double) (c : Costmap2D) :
  mtx_ c = false -> updateWeights w c = Done tt (with_weights w c).
Proof.
  destruct c as [srv m v]; simpl; intros ->; reflexivity.
Qed.


Lemma peeks_repeat (n : nat) (c : Costmap2D) :
  run_ops (repeat peek n) c = Done (repeat (current_weights_ c) n) c.
Proof.
  induction n as [|n IH]; simpl; [reflexivity|].
  unfold bind, peek_current_weights; rewrite IH; reflexivity.
Qed.

Lemma last_cons_default {A : Type} (l : list A) (x d : A) :
  last (x :: l) d = last l x.
Proof.
  revert x d; induction l as [|y l IH]; intros x d; [reflexivity|].
  change (last (x :: y :: l) d) with (last (y :: l) d).
  now rewrite !IH.
Qed.

Lemma last_in_cons {A : Type} (l : list A) (d : A) : In (last l d) (d :: l).
Proof.
  revert d; induction l as [|y l IH]; intros d; [now left|].
  rewrite last_cons_default; right; apply IH.
Qed.

(** ** Sequences of calls *)

(** From an unlocked object every sequence of operations runs to the end,
    leaves the mutex free and the server member alone, stores the vector of
    the last write, and each [peek] sees the start value or a written one. *)
Lemma run_ops_unlocked (ops : list op) :
  forall c, mtx_ c = false ->
  exists obs c',
    run_ops ops c = Done obs c' /\
    mtx_ c' = false /\
    reconfig_srv_ c' = reconfig_srv_ c /\
    current_weights_ c' = last (written ops) (current_weights_ c) /\
    Forall (fun v => In v (current_weights_ c :: written ops)) obs.
Proof.
  induction ops as [|o ops IH]; intros c Hc.
  - exists [], c; simpl; repeat split; auto.
  - destruct o as [w|cfg level|].
    + destruct (IH (with_weights w c) Hc) as (obs & c' & Hr & Hm & Hs & Hw & Ho).
      exists obs, c'; simpl run_ops; unfold bind.
      rewrite (updateWeights_unlocked w c Hc), Hr.
      repeat split; auto.
      * simpl written; rewrite last_cons_default; exact Hw.
      * eapply Forall_impl; [|exact Ho].
        simpl; intros v [<-|Hv]; auto.
    + destruct (IH (with_weights (config_weights cfg) c) Hc)
        as (obs & c' & Hr & Hm & Hs & Hw & Ho).
      exists obs, c'; simpl run_ops; unfold bind, reconfigCB.
      fold (config_weights cfg).
      rewrite (updateWeights_unlocked _ c Hc), Hr.
      repeat split; auto.
      * simpl written; rewrite last_cons_default; exact Hw.
      * eapply Forall_impl; [|exact Ho].
        simpl; intros v [<-|Hv]; auto.
    + destruct (IH c Hc) as (obs & c' & Hr & Hm & Hs & Hw & Ho).
      exists (current_weights_ c :: obs), c'; simpl run_ops.
      unfold bind, peek_current_weights, ret; rewrite Hr.
      repeat split; auto.
      constructor; [now left | exact Ho].
Qed.

Lemma deliver_as_ops (l : list (CostWeightsConfig * uint32_t)) (c : Costmap2D) :
  deliver l c =
  match run_ops (map (fun d => call_reconfigCB (fst d) (snd d)) l) c with
  | Done _ c' => Done tt c'
  | Blocked => Blocked
  end.
Proof.
  revert c; induction l as [|[cfg level] l IH]; intros c; [reflexivity|].
  simpl; unfold bind.
  destruct (reconfigCB cfg level c) as [[] c'|]; [apply IH | reflexivity].
Qed.

Lemma written_deliveries (l : list (CostWeightsConfig * uint32_t)) :
  written (map (fun d => call_reconfigCB (fst d) (snd d)) l) =
  map (fun d => config_weights (fst d)) l.
Proof.
  induction l as [|[cfg level] l IH]; simpl; [reflexivity | now rewrite IH].
Qed.

(** The constructor always returns, with the mutex free and the vector of
    the last start-up delivery (empty when there was none). *)
Lemma Costmap2D_ctor_returns (b : Build) :
  exists c,
    Costmap2D_ctor b = Done tt c /\
    mtx_ c = false /\
    current_weights_ c = last (startup_written b) [].
Proof.
  destruct b as [|srv].
  - exists (default_members CoreOnly); repeat split.
  - unfold Costmap2D_ctor, setCallback, bind.
    rewrite deliver_as_ops.
    destruct (run_ops_unlocked
                (map (fun d => call_reconfigCB (fst d) (snd d))
                     (on_setCallback srv))
                (with_callback (default_members (HasDynamicReconfigure srv)))
                eq_refl)
      as (obs & c' & Hr & Hm & _ & Hw & _).
    rewrite Hr; exists c'; repeat split; auto.
    rewrite Hw, written_deliveries; reflexivity.
Qed.


(** ** Threads *)

Lemma upd_same (t : tid) (p : pc) (f : tid -> pc) : upd t p f t = p.
Proof. unfold upd; now rewrite Nat.eqb_refl. Qed.

Lemma upd_other (t u : tid) (p : pc) (f : tid -> pc) :
  u <> t -> upd t p f u = f u.
Proof.
  intros H; unfold upd; destruct (Nat.eqb_spec u t); [contradiction | reflexivity].
Qed.

Lemma firstn_store_at (k : nat) (x : double) (v w : vector_double) :
  nth_error w k = Some x ->
  firstn k v = firstn k w ->
  firstn (S k) (store_at k x v) = firstn (S k) w.
Proof.
  intros Hx Hpre.
  assert (Hk : k < length w) by (apply nth_error_Some; congruence).
  assert (Hlen : length (firstn k v) = k).
  { rewrite Hpre, length_firstn; lia. }
  unfold store_at.
  rewrite firstn_app, Hlen.
  replace (S k - k) with 1 by lia.
  rewrite firstn_all2 by lia.
  change (firstn 1 (x :: skipn (S k) v)) with [x].
  rewrite Hpre.
  clear Hpre Hlen v.
  revert w Hx Hk; induction k as [|k IH]; intros [|y w] Hx Hk;
    simpl in *; try lia; try discriminate.
  - now inversion Hx.
  - f_equal; apply IH; [exact Hx | lia].
Qed.

Lemma start_serialized (c0 : Costmap2D) :
  mtx_ c0 = false -> serialized c0 (start c0).
Proof.
  intros Hfree; constructor; simpl; try discriminate.
  - rewrite Hfree; discriminate.
  - intros _; now left.
  - intros t w [H|[[k H]|H]]; discriminate.
Qed.

Ltac thread_cases u t :=
  destruct (Nat.eq_dec u t) as [->|?];
  [ rewrite ?upd_same in * | rewrite ?upd_other in * by assumption ].

Section Steps.

Variable c0 : Costmap2D.
Variables (s : system) (t : tid).
Hypothesis Hs : serialized c0 s.

Lemma others_outside_cs :
  in_critical_section (threads s t) = true ->
  forall u, u <> t -> in_critical_section (threads s u) = false.
Proof.
  intros Ht u Hne.
  destruct (in_critical_section (threads s u)) eqn:Hu; [|reflexivity].
  exfalso; apply Hne; exact (cs_exclusive c0 s Hs u t Hu Ht).
Qed.

Lemma enter_serialized (w : vector_double) :
  threads s t = Outside ->
  serialized c0
    (mkSystem (cell s) (upd t (AtLockGuard w) (threads s)) (w :: passed s)).
Proof.
  intros Ht; destruct Hs as [Hhold Hholder Hexcl Hfree Hpre Hexit Hargs].
  constructor; simpl.
  - intros u Hu; thread_cases u t; [discriminate | eauto].
  - intros Hm; destruct (Hholder Hm) as [u Hu]; exists u.
    thread_cases u t; [rewrite Ht in Hu; discriminate | exact Hu].
  - intros u v Hu Hv; thread_cases u t; [discriminate|].
    thread_cases v t; [discriminate | eauto].
  - intros Hm; destruct (Hfree Hm) as [H|H]; [now left | right; now right].
  - intros u w0 k Hu; thread_cases u t; [discriminate | eauto].
  - intros u w0 Hu; thread_cases u t; [discriminate | eauto].
  - intros u w0 Hu; thread_cases u t.
    + destruct Hu as [H|[[k H]|H]]; try discriminate.
      left; congruence.
    + right; eauto.
Qed.

Lemma acquire_serialized (w : vector_double) :
  threads s t = AtLockGuard w ->
  mtx_ (cell s) = false ->
  serialized c0
    (mkSystem (with_mtx true (cell s)) (upd t (InAssign w 0) (threads s))
              (passed s)).
Proof.
  intros Ht Hm; destruct Hs as [Hhold Hholder Hexcl Hfree Hpre Hexit Hargs].
  assert (Hnone : forall u, in_critical_section (threads s u) = false).
  { intros u; destruct (in_critical_section (threads s u)) eqn:Hu; auto.
    rewrite (Hhold u Hu) in Hm; discriminate. }
  constructor; simpl.
  - reflexivity.
  - intros _; exists t; now rewrite upd_same.
  - intros u v Hu Hv; thread_cases u t; thread_cases v t; auto;
      rewrite Hnone in *; discriminate.
  - discriminate.
  - intros u w0 k Hu; thread_cases u t.
    + inversion Hu; subst; split; [lia | reflexivity].
    + specialize (Hnone u); rewrite Hu in Hnone; discriminate.
  - intros u w0 Hu; thread_cases u t; [discriminate|].
    specialize (Hnone u); rewrite Hu in Hnone; discriminate.
  - intros u w0 Hu; thread_cases u t.
    + destruct Hu as [H|[[k H]|H]]; try discriminate.
      inversion H; subst; apply (Hargs t); now left.
    + eauto.
Qed.

Lemma copy_serialized (w : vector_double) (k : nat) (x : double) :
  threads s t = InAssign w k ->
  nth_error w k = Some x ->
  serialized c0
    (mkSystem (with_weights (store_at k x (current_weights_ (cell s)))
                            (cell s))
              (upd t (InAssign w (S k)) (threads s)) (passed s)).
Proof.
  intros Ht Hx.
  assert (Hcs : in_critical_section (threads s t) = true) by now rewrite Ht.
  pose proof (others_outside_cs Hcs) as Hothers.
  destruct Hs as [Hhold Hholder Hexcl Hfree Hpre Hexit Hargs].
  constructor; simpl.
  - intros _ _; exact (Hhold t Hcs).
  - intros _; exists t; now rewrite upd_same.
  - intros u v Hu Hv; thread_cases u t; thread_cases v t; auto;
      rewrite Hothers in * by assumption; discriminate.
  - rewrite (Hhold t Hcs); discriminate.
  - intros u w0 k0 Hu; thread_cases u t.
    + inversion Hu; subst w0 k0; split.
      * apply Nat.le_succ_l, nth_error_Some; congruence.
      * apply firstn_store_at; [exact Hx | exact (proj2 (Hpre t w k Ht))].
    + specialize (Hothers u ltac:(assumption)).
      rewrite Hu in Hothers; discriminate.
  - intros u w0 Hu; thread_cases u t; [discriminate|].
    specialize (Hothers u ltac:(assumption)).
    rewrite Hu in Hothers; discriminate.
  - intros u w0 Hu; thread_cases u t.
    + destruct Hu as [H|[[k0 H]|H]]; try discriminate.
      inversion H; subst; apply (Hargs t); right; left; eauto.
    + eauto.
Qed.

Lemma set_size_serialized (w : vector_double) :
  threads s t = InAssign w (length w) ->
  serialized c0
    (mkSystem (with_weights (firstn (length w) (current_weights_ (cell s)))
                            (cell s))
              (upd t (AtScopeExit w) (threads s)) (passed s)).
Proof.
  intros Ht.
  assert (Hcs : in_critical_section (threads s t) = true) by now rewrite Ht.
  pose proof (others_outside_cs Hcs) as Hothers.
  destruct Hs as [Hhold Hholder Hexcl Hfree Hpre Hexit Hargs].
  constructor; simpl.
  - intros _ _; exact (Hhold t Hcs).
  - intros _; exists t; now rewrite upd_same.
  - intros u v Hu Hv; thread_cases u t; thread_cases v t; auto;
      rewrite Hothers in * by assumption; discriminate.
  - rewrite (Hhold t Hcs); discriminate.
  - intros u w0 k0 Hu; thread_cases u t; [discriminate|].
    specialize (Hothers u ltac:(assumption)).
    rewrite Hu in Hothers; discriminate.
  - intros u w0 Hu; thread_cases u t.
    + inversion Hu; subst w0.
      rewrite (proj2 (Hpre t w (length w) Ht)); apply firstn_all.
    + specialize (Hothers u ltac:(assumption)).
      rewrite Hu in Hothers; discriminate.
  - intros u w0 Hu; thread_cases u t.
    + destruct Hu as [H|[[k0 H]|H]]; try discriminate.
      inversion H; subst; apply (Hargs t); right; left; eauto.
    + eauto.
Qed.

Lemma release_serialized (w : vector_double) :
  threads s t = AtScopeExit w ->
  serialized c0
    (mkSystem (with_mtx false (cell s)) (upd t Outside (threads s))
              (passed s)).
Proof.
  intros Ht.
  assert (Hcs : in_critical_section (threads s t) = true) by now rewrite Ht.
  pose proof (others_outside_cs Hcs) as Hothers.
  destruct Hs as [Hhold Hholder Hexcl Hfree Hpre Hexit Hargs].
  constructor; simpl.
  - intros u Hu; thread_cases u t; [discriminate|].
    rewrite Hothers in Hu by assumption; discriminate.
  - discriminate.
  - intros u v Hu Hv; thread_cases u t; [discriminate|].
    rewrite Hothers in Hu by assumption; discriminate.
  - intros _; right.
    rewrite (Hexit t w Ht); apply (Hargs t); right; right; exact Ht.
  - intros u w0 k0 Hu; thread_cases u t; [discriminate|].
    specialize (Hothers u ltac:(assumption)).
    rewrite Hu in Hothers; discriminate.
  - intros u w0 Hu; thread_cases u t; [discriminate|].
    specialize (Hothers u ltac:(assumption)).
    rewrite Hu in Hothers; discriminate.
  - intros u w0 Hu; thread_cases u t.
    + destruct Hu as [H|[[k0 H]|H]]; discriminate.
    + eauto.
Qed.

Lemma step_serialized (a : action) (s' : system) :
  step t a s = Some s' -> serialized c0 s'.
Proof.
  unfold step; intros Hstep.
  destruct a as [w| | | |];
    destruct (threads s t) as [|w'|w' k|w'] eqn:Ht; try discriminate.
  - inversion Hstep; subst s'; now apply enter_serialized.
  - unfold lock_guard in Hstep.
    destruct (mtx_ (cell s)) eqn:Hm; [discriminate|].
    inversion Hstep; subst s'; now apply (acquire_serialized w').
  - destruct (nth_error w' k) as [x|] eqn:Hx; [|discriminate].
    inversion Hstep; subst s'; now apply (copy_serialized w' k x).
  - destruct (Nat.eqb_spec k (length w')) as [->|]; [|discriminate].
    inversion Hstep; subst s'; now apply (set_size_serialized w').
  - inversion Hstep; subst s'; now apply (release_serialized w').
Qed.

End Steps.

Lemma exec_serialized (c0 : Costmap2D) (tr : list (tid * action)) :
  forall s s', serialized c0 s -> exec tr s = Some s' -> serialized c0 s'.
Proof.
  induction tr as [|[t a] tr IH]; intros s s' Hs Hexec; simpl in Hexec.
  - now inversion Hexec; subst.
  - destruct (step t a s) as [s1|] eqn:Hstep; [|discriminate].
    apply (IH s1 s'); [|exact Hexec].
    exact (step_serialized c0 s t Hs a s1 Hstep).
Qed.

Lemma exec_app (tr1 tr2 : list (tid * action)) (s : system) :
  exec (tr1 ++ tr2) s =
  match exec tr1 s with
  | Some s' => exec tr2 s'
  | None => None
  end.
Proof.
  revert s; induction tr1 as [|[t a] tr1 IH]; intros s; simpl; [reflexivity|].
  destruct (step t a s); [apply IH | reflexivity].
Qed.

(** A step that changes the stored vector is a step of the assignment. *)
Lemma step_changes_weights (t : tid) (a : action) (s s' : system) :
  step t a s = Some s' ->
  current_weights_ (cell s') <> current_weights_ (cell s) ->
  exists w k, threads s t = InAssign w k.
Proof.
  unfold step; intros Hstep Hne.
  destruct a as [w| | | |];
    destruct (threads s t) as [|w'|w' k|w'] eqn:Ht; try discriminate;
    try (now exists w', k).
  - inversion Hstep; subst s'; now elim Hne.
  - unfold lock_guard in Hstep.
    destruct (mtx_ (cell s)); [discriminate|].
    inversion Hstep; subst s'; now elim Hne.
  - inversion Hstep; subst s'; now elim Hne.
Qed.

Lemma exec_cons (t : tid) (a : action) (tr : list (tid * action)) (s : system) :
  exec ((t, a) :: tr) s =
  match step t a s with
  | Some s' => exec tr s'
  | None => None
  end.
Proof. reflexivity. Qed.

Lemma step_enter (t : tid) (w : vector_double) (s : system) :
  threads s t = Outside ->
  step t (Enter w) s =
  Some (mkSystem (cell s) (upd t (AtLockGuard w) (threads s)) (w :: passed s)).
Proof. unfold step; intros ->; reflexivity. Qed.

Lemma step_acquire (t : tid) (w : vector_double) (s : system) :
  threads s t = AtLockGuard w ->
  mtx_ (cell s) = false ->
  step t Acquire s =
  Some (mkSystem (with_mtx true (cell s)) (upd t (InAssign w 0) (threads s))
                 (passed s)).
Proof. unfold step, lock_guard; intros -> ->; reflexivity. Qed.

Lemma step_set_size (t : tid) (w : vector_double) (s : system) :
  threads s t = InAssign w (length w) ->
  step t SetSize s =
  Some (mkSystem
          (with_weights (firstn (length w) (current_weights_ (cell s)))
                        (cell s))
          (upd t (AtScopeExit w) (threads s)) (passed s)).
Proof. unfold step; intros ->; rewrite Nat.eqb_refl; reflexivity. Qed.

Lemma step_release (t : tid) (w : vector_double) (s : system) :
  threads s t = AtScopeExit w ->
  step t Release s =
  Some (mkSystem (with_mtx false (cell s)) (upd t Outside (threads s))
                 (passed s)).
Proof. unfold step; intros ->; reflexivity. Qed.

(** ** One call alone is [updateWeights] *)

Lemma copy_loop (t : tid) (w : vector_double) (n : nat) :
  forall s k,
    threads s t = InAssign w k ->
    k + n <= length w ->
    exists s',
      exec (repeat (t, CopyElement) n) s = Some s' /\
      threads s' t = InAssign w (k + n) /\
      (forall u, u <> t -> threads s' u = threads s u) /\
      passed s' = passed s /\
      mtx_ (cell s') = mtx_ (cell s) /\
      reconfig_srv_ (cell s') = reconfig_srv_ (cell s) /\
      (firstn k (current_weights_ (cell s)) = firstn k w ->
       firstn (k + n) (current_weights_ (cell s')) = firstn (k + n) w).
Proof.
  induction n as [|n IH]; intros s k Ht Hk.
  - exists s; rewrite Nat.add_0_r; simpl; repeat split; auto.
  - destruct (nth_error w k) as [x|] eqn:Hx;
      [|apply nth_error_None in Hx; lia].
    set (s1 := mkSystem
                 (with_weights (store_at k x (current_weights_ (cell s)))
                               (cell s))
                 (upd t (InAssign w (S k)) (threads s)) (passed s)).
    destruct (IH s1 (S k)) as (s' & He & Ht' & Ho & Hp & Hm & Hsrv & Hpre).
    { simpl; apply upd_same. }
    { lia. }
    exists s'; simpl; unfold step; rewrite Ht, Hx; fold s1.
    replace (k + S n) with (S k + n) by lia.
    repeat split; auto.
    + intros u Hu; rewrite (Ho u Hu); simpl; now apply upd_other.
    + intros H0; apply Hpre; simpl; now apply firstn_store_at.
Qed.

(** With nobody else moving, the steps of one call take the shared object
    exactly where the member function takes it. *)
Lemma solo_call_is_updateWeights (t : tid) (w : vector_double) (s : system) :
  threads s t = Outside ->
  mtx_ (cell s) = false ->
  exists s',
    exec (solo_call t w) s = Some s' /\
    updateWeights w (cell s) = Done tt (cell s') /\
    threads s' t = Outside /\
    (forall u, u <> t -> threads s' u = threads s u) /\
    passed s' = w :: passed s.
Proof.
  intros Ht Hm.
  set (s2 := mkSystem (with_mtx true (cell s))
                      (upd t (InAssign w 0) (upd t (AtLockGuard w) (threads s)))
                      (w :: passed s)).
  destruct (copy_loop t w (length w) s2 0)
    as (s3 & He & Ht3 & Ho & Hp & Hm3 & Hsrv & Hpre).
  { simpl; apply upd_same. }
  { simpl; lia. }
  simpl in Ht3, Hpre; specialize (Hpre eq_refl).
  rewrite firstn_all in Hpre.
  set (s5 := mkSystem
               (with_mtx false
                  (with_weights
                     (firstn (length w) (current_weights_ (cell s3)))
                     (cell s3)))
               (upd t Outside (upd t (AtScopeExit w) (threads s3)))
               (passed s3)).
  exists s5.
  split; [|split; [|split; [|split]]].
  - unfold solo_call.
    rewrite exec_cons, (step_enter t w s Ht).
    rewrite exec_cons, (step_acquire t w)
      by first [exact (upd_same _ _ _) | exact Hm].
    cbn [cell threads passed]; fold s2.
    rewrite exec_app, He.
    rewrite exec_cons, (step_set_size t w s3 Ht3).
    rewrite exec_cons, (step_release t w) by exact (upd_same _ _ _).
    reflexivity.
  - rewrite updateWeights_unlocked by exact Hm.
    unfold s5; cbn [cell]; rewrite Hpre.
    unfold with_mtx, with_weights; cbn.
    unfold s2 in Hsrv; cbn in Hsrv; rewrite Hsrv, Hm; reflexivity.
  - unfold s5; cbn; apply upd_same.
  - intros u Hu; unfold s5; cbn.
    rewrite !upd_other by exact Hu.
    rewrite (Ho u Hu); unfold s2; cbn.
    now rewrite !upd_other by exact Hu.
  - unfold s5; cbn; rewrite Hp; reflexivity.
Qed.

(** ** Calls in turn *)

(** Calls made in turn, taken step by step, end where the member function
    run on the same arguments ends, with every thread outside again. *)
Lemma calls_in_turn_run (calls : list (tid * vector_double)) :
  forall s,
    (forall t, threads s t = Outside) ->
    mtx_ (cell s) = false ->
    exists s',
      exec (calls_in_turn calls) s = Some s' /\
      (forall t, threads s' t = Outside) /\
      mtx_ (cell s') = false /\
      run_ops (map (fun c => call_updateWeights (snd c)) calls) (cell s)
        = Done [] (cell s').
Proof.
  induction calls as [|[t w] calls IH]; intros s Hout Hm.
  - exists s; repeat split; auto.
  - destruct (solo_call_is_updateWeights t w s (Hout t) Hm)
      as (s1 & He & Hu & Ht & Ho & _).
    assert (Hm1 : mtx_ (cell s1) = false).
    { rewrite (updateWeights_unlocked w _ Hm) in Hu.
      inversion Hu as [Hc]; exact Hm. }
    assert (Hout1 : forall u, threads s1 u = Outside).
    { intros u; destruct (Nat.eq_dec u t) as [->|Hne]; [exact Ht|].
      rewrite (Ho u Hne); apply Hout. }
    destruct (IH s1 Hout1 Hm1) as (s' & He' & Hout' & Hm' & Hr).
    exists s'.
    change (calls_in_turn ((t, w) :: calls))
      with (solo_call t w ++ calls_in_turn calls).
    rewrite exec_app, He.
    repeat split; auto.
    simpl; unfold bind; cbn [snd]; rewrite Hu; exact Hr.
Qed.

(** ** Every call returns *)

Lemma finish_assignment (t : tid) (w : vector_double) (k : nat) (s : system) :
  threads s t = InAssign w k ->
  k <= length w ->
  exists s',
    exec (repeat (t, CopyElement) (length w - k) ++ [(t, SetSize); (t, Release)])
         s = Some s' /\
    threads s' t = Outside /\
    (forall u, u <> t -> threads s' u = threads s u) /\
    mtx_ (cell s') = false.
Proof.
  intros Ht Hk.
  destruct (copy_loop t w (length w - k) s k Ht)
    as (s1 & He & Ht1 & Ho & _); [lia|].
  replace (k + (length w - k)) with (length w) in Ht1 by lia.
  eexists; split; [|split; [|split]].
  - rewrite exec_app, He.
    rewrite exec_cons, (step_set_size t w s1 Ht1).
    rewrite exec_cons, (step_release t w) by exact (upd_same _ _ _).
    reflexivity.
  - cbn; apply upd_same.
  - intros u Hu; cbn; rewrite !upd_other by exact Hu; now apply Ho.
  - reflexivity.
Qed.

(** The thread inside can always run on to the end of the function, which
    frees the mutex and moves nobody else. *)
Lemma leave_critical_section (c0 : Costmap2D) (t : tid) (s : system) :
  serialized c0 s ->
  in_critical_section (threads s t) = true ->
  exists tr s',
    exec tr s = Some s' /\
    threads s' t = Outside /\
    (forall u, u <> t -> threads s' u = threads s u) /\
    mtx_ (cell s') = false.
Proof.
  intros Hs Hcs.
  destruct (threads s t) as [|w|w k|w] eqn:Ht; try discriminate.
  - destruct (finish_assignment t w k s Ht
                (proj1 (assign_prefix c0 s Hs t w k Ht)))
      as (s' & He & H); eauto.
  - exists [(t, Release)]; eexists; split; [|split; [|split]].
    + rewrite exec_cons, (step_release t w s Ht); reflexivity.
    + cbn; apply upd_same.
    + intros u Hu; cbn; now apply upd_other.
    + reflexivity.
Qed.

Lemma acquire_and_finish (t : tid) (w : vector_double) (s : system) :
  threads s t = AtLockGuard w ->
  mtx_ (cell s) = false ->
  exists tr s', exec tr s = Some s' /\ threads s' t = Outside.
Proof.
  intros Ht Hm.
  set (s1 := mkSystem (with_mtx true (cell s))
                      (upd t (InAssign w 0) (threads s)) (passed s)).
  destruct (finish_assignment t w 0 s1 (upd_same _ _ _) (Nat.le_0_l _))
    as (s' & He & Ht' & _).
  exists ((t, Acquire) ::
          repeat (t, CopyElement) (length w - 0) ++ [(t, SetSize); (t, Release)]),
         s'.
  split; [|exact Ht'].
  rewrite exec_cons, (step_acquire t w s Ht Hm); exact He.
Qed.

(** No call is ever stuck: whatever the other threads have done, the steps
    can go on until thread [t] is out of [updateWeights]. *)
Lemma call_can_complete (c0 : Costmap2D) (t : tid) (s : system) :
  serialized c0 s ->
  exists tr s', exec tr s = Some s' /\ threads s' t = Outside.
Proof.
  intros Hs.
  destruct (threads s t) as [|w|w k|w] eqn:Ht.
  - exists [], s; split; [reflexivity | exact Ht].
  - destruct (mtx_ (cell s)) eqn:Hm.
    + destruct (mutex_has_holder c0 s Hs Hm) as [u Hu].
      assert (Hne : t <> u) by (intros ->; rewrite Ht in Hu; discriminate).
      destruct (leave_critical_section c0 u s Hs Hu)
        as (tr1 & s1 & He1 & _ & Ho & Hm1).
      destruct (acquire_and_finish t w s1) as (tr2 & s2 & He2 & Ht2);
        [rewrite (Ho t Hne); exact Ht | exact Hm1 |].
      exists (tr1 ++ tr2), s2; split; [|exact Ht2].
      now rewrite exec_app, He1.
    + now apply (acquire_and_finish t w s).
  - destruct (leave_critical_section c0 t s Hs) as (tr & s' & He & Ht' & _);
      [now rewrite Ht | eauto].
  - destruct (leave_critical_section c0 t s Hs) as (tr & s' & He & Ht' & _);
      [now rewrite Ht | eauto].
Qed.

(** ** Runs of writes only *)


(** ** The calls of a trace *)


(** * The specification's claims *)

(** ** The stored vector is always a whole written value *)




(** ** What one write does *)

(** C2. On an object whose mutex is free, [updateWeights w] returns and the
    stored vector is then exactly [w]; any number of later reads each return
    [w] and leave the object as it is. In particular, in either build,
    constructing the object and writing [{2.0, 1.0}] makes the next read
    return exactly [{2.0, 1.0}], and the repository's test passes. *)
Theorem updateWeights_then_read
  (w : vector_double) (c : Costmap2D) (Hfree : mtx_ c = false) :
  exists c',
    updateWeights w c = Done tt c' /\
    current_weights_ c' = w /\
    (forall n, run_ops (repeat peek n) c' = Done (repeat w n) c') /\
    (forall b, exists cm cm',
        Costmap2D_ctor b = Done tt cm /\
        updateWeights [2.0%float; 1.0%float] cm = Done tt cm' /\
        peek_current_weights cm' = Done [2.0%float; 1.0%float] cm' /\
        DynamicWeightUpdate b = Some true).
Proof.
  exists (with_weights w c); repeat split.
  - now apply updateWeights_unlocked.
  - intros n; apply (peeks_repeat n (with_weights w c)).
  - intros b.
    destruct (Costmap2D_ctor_returns b) as (cm & Hctor & Hm & _).
    exists cm, (with_weights [2.0%float; 1.0%float] cm).
    pose proof (updateWeights_unlocked [2.0%float; 1.0%float] cm Hm) as Hu.
    repeat split; auto.
    unfold DynamicWeightUpdate; rewrite Hctor, Hu; reflexivity.
Qed.

Lemma updateWeights_then_read_witness :
  mtx_ (default_members CoreOnly) = false /\
  exists c',
    updateWeights [2.0%float; 1.0%float] (default_members CoreOnly)
      = Done tt c' /\
    current_weights_ c' = [2.0%float; 1.0%float].
Proof.
  split; [reflexivity|].
  destruct (updateWeights_then_read [2.0%float; 1.0%float]
              (default_members CoreOnly) eq_refl) as (c' & H1 & H2 & _).
  exists c'; split; assumption.
Defined.

(** ** The freshly constructed object *)

(** C3, as the specification words it, fails: the object built without
    reconfiguration support starts with the empty vector, not with
    [{1.0, 1.0}]. *)
Lemma fresh_cell_is_not_one_one :
  exists c,
    Costmap2D_ctor CoreOnly = Done tt c /\
    peek_current_weights c = Done [] c /\
    current_weights_ c <> [1.0%float; 1.0%float].
Proof.
  exists (default_members CoreOnly); repeat split.
  simpl; discriminate.
Qed.

(** C3, amended. The constructor always returns with the mutex free. Built
    without reconfiguration support, the fresh object holds the empty vector
    and a first read returns it. Built with it, the fresh object holds the
    pair [obstacle_weight], [inflation_weight] of the last configuration the
    server delivered to the callback during [setCallback], or the empty
    vector when it delivered none; with the library's server whose current
    configuration is [{1.0, 1.0}] that is [{1.0, 1.0}]. *)
Theorem fresh_cell_weights (b : Build) :
  exists c,
    Costmap2D_ctor b = Done tt c /\
    mtx_ c = false /\
    current_weights_ c =
      match b with
      | CoreOnly => []
      | HasDynamicReconfigure srv =>
          last (map (fun d => config_weights (fst d)) (on_setCallback srv)) []
      end /\
    peek_current_weights c = Done (current_weights_ c) c /\
    outcome_core
      (Costmap2D_ctor
         (HasDynamicReconfigure
            (dynamic_reconfigure_server (mkConfig 1.0%float 1.0%float))))
    = Some (false, [1.0%float; 1.0%float]).
Proof.
  destruct (Costmap2D_ctor_returns b) as (c & Hctor & Hfree & Hw).
  exists c; repeat split; auto.
  rewrite Hw; destruct b; reflexivity.
Qed.

(** ** The public interface *)

(** C4, as the specification words it, fails: no member of the class is a
    public function without parameters that returns the weights. *)
Lemma no_reader_declared :
  existsb is_reader Costmap2D_class = false /\
  existsb (fun m => String.eqb (m_name m) "read") Costmap2D_class = false.
Proof.
  split; reflexivity.
Qed.

(** C4, amended. The public members of the class are the constructor and
    [updateWeights], in either build, and [updateWeights] returns nothing;
    the class has no read operation, and the weight vector is the private
    data member [current_weights_], which is where the repository's only
    reader, the test, takes it from. *)
Theorem public_interface_is_write_only
  (m : member)
  (Hin : In m Costmap2D_class)
  (Hpub : is_public m = true) :
  (m = mkMember "Costmap2D" public (constructor []) false \/
   m = mkMember "updateWeights" public
                (method [t_const_vector_double_ref] t_void) false) /\
  (forall b, declared_in b m = true) /\
  is_reader m = false /\
  In (mkMember "current_weights_" private (field t_vector_double) false)
     Costmap2D_class.
Proof.
  assert (Hm : m = mkMember "Costmap2D" public (constructor []) false \/
               m = mkMember "updateWeights" public
                     (method [t_const_vector_double_ref] t_void) false).
  { simpl in Hin.
    destruct Hin as [<-|[<-|[<-|[<-|[<-|[<-|[]]]]]]]; auto; discriminate Hpub. }
  split; [exact Hm|].
  split; [intros [|srv]; destruct Hm as [->| ->]; reflexivity|].
  split; [destruct Hm as [->| ->]; reflexivity|].
  simpl; auto 10.
Qed.

Lemma public_interface_is_write_only_witness :
  In (mkMember "updateWeights" public
               (method [t_const_vector_double_ref] t_void) false)
     Costmap2D_class /\
  is_public (mkMember "updateWeights" public
               (method [t_const_vector_double_ref] t_void) false) = true /\
  is_reader (mkMember "updateWeights" public
               (method [t_const_vector_double_ref] t_void) false) = false.
Proof.
  assert (Hin : In (mkMember "updateWeights" public
                      (method [t_const_vector_double_ref] t_void) false)
                   Costmap2D_class) by (simpl; auto).
  split; [exact Hin|].
  split; [reflexivity|].
  exact (proj1 (proj2 (proj2 (public_interface_is_write_only _ Hin eq_refl)))).
Defined.

(** ** The reconfiguration callback *)

(** C5. For every delivered configuration and level mask, [reconfigCB] is
    [updateWeights] on the two-element vector holding [obstacle_weight]
    first and [inflation_weight] second; on an object whose mutex is free it
    returns, the stored vector is that pair, and the server member and the
    mutex are as before. *)
Theorem reconfigCB_installs_pair
  (cfg : CostWeightsConfig) (level : uint32_t) (c : Costmap2D) :
  reconfigCB cfg level c =
    updateWeights [obstacle_weight cfg; inflation_weight cfg] c /\
  (mtx_ c = false ->
   exists c',
     reconfigCB cfg level c = Done tt c' /\
     current_weights_ c' = [obstacle_weight cfg; inflation_weight cfg] /\
     mtx_ c' = mtx_ c /\
     reconfig_srv_ c' = reconfig_srv_ c).
Proof.
  split; [reflexivity|].
  intros Hfree.
  exists (with_weights [obstacle_weight cfg; inflation_weight cfg] c).
  repeat split.
  unfold reconfigCB; now apply updateWeights_unlocked.
Qed.

Lemma reconfigCB_installs_pair_witness :
  mtx_ (default_members (HasDynamicReconfigure (mkServer []))) = false /\
  exists c',
    reconfigCB (mkConfig 2.0%float 1.0%float) 0%N (default_members (HasDynamicReconfigure (mkServer [])))
      = Done tt c' /\
    current_weights_ c' = [2.0%float; 1.0%float].
Proof.
  split; [reflexivity|].
  destruct (proj2 (reconfigCB_installs_pair (mkConfig 2.0%float 1.0%float) 0%N
                     (default_members (HasDynamicReconfigure (mkServer [])))) eq_refl)
    as (c' & H1 & H2 & _).
  exists c'; split; assumption.
Defined.

(** ** Last write wins *)

(** C6. Last write wins: on an object whose mutex is free, writing [A] and
    then [B] leaves the object exactly as writing [B] alone would; the
    stored vector is [B], every later read returns [B], and none returns
    [A] unless [A] is [B]. It makes no difference which threads make the
    two calls: when the call with [A] has returned before the call with [B]
    starts, the mutex ends free and the member reads [B]. *)
Theorem last_write_wins
  (A B : vector_double) (c : Costmap2D) (Hfree : mtx_ c = false) :
  exists cA cB,
    updateWeights A c = Done tt cA /\
    updateWeights B cA = Done tt cB /\
    updateWeights B c = Done tt cB /\
    current_weights_ cB = B /\
    (forall n, run_ops (repeat peek n) cB = Done (repeat B n) cB) /\
    (A <> B -> current_weights_ cB <> A) /\
    (forall tA tB : tid,
        exists s,
          exec (calls_in_turn [(tA, A); (tB, B)]) (start c) = Some s /\
          cell s = cB /\
          unlocked_read s = B).
Proof.
  exists (with_weights A c), (with_weights B c).
  split; [now apply updateWeights_unlocked|].
  split; [rewrite updateWeights_unlocked by exact Hfree; reflexivity|].
  split; [now apply updateWeights_unlocked|].
  split; [reflexivity|].
  split; [|split].
  - intros n; apply (peeks_repeat n (with_weights B c)).
  - intros Hne Heq; apply Hne; symmetry; exact Heq.
  - intros tA tB.
    destruct (calls_in_turn_run [(tA, A); (tB, B)] (start c)
                (fun _ => eq_refl) Hfree) as (s & He & _ & _ & Hr).
    exists s; split; [exact He|].
    cbn [map snd start cell run_ops] in Hr; unfold bind in Hr.
    rewrite (updateWeights_unlocked A c Hfree) in Hr.
    rewrite (updateWeights_unlocked B (with_weights A c) Hfree) in Hr.
    inversion Hr as [Hc]; unfold unlocked_read; rewrite <- Hc.
    split; reflexivity.
Qed.

Lemma last_write_wins_witness :
  mtx_ (default_members CoreOnly) = false /\
  exists cA cB,
    updateWeights [3.0%float; 4.0%float] (default_members CoreOnly)
      = Done tt cA /\
    updateWeights [2.0%float; 1.0%float] cA = Done tt cB /\
    current_weights_ cB = [2.0%float; 1.0%float].
Proof.
  split; [reflexivity|].
  destruct (last_write_wins [3.0%float; 4.0%float] [2.0%float; 1.0%float]
              (default_members CoreOnly) eq_refl)
    as (cA & cB & H1 & H2 & _ & H4 & _).
  exists cA, cB; repeat split; assumption.
Defined.

(** ** With and without reconfiguration support *)






(** ** Every call returns *)

(** C8, as the specification words it, fails in its last clause: running
    out of memory is not fatal but reported. [updateWeights] catches
    nothing, so when the copy cannot get its storage [std::bad_alloc] goes
    to the caller, who finds the object as it was, with the mutex free, and
    can go on using it. On a heap with room for one [double], writing
    [{2.0, 1.0}] throws and writing [{7.5}] afterwards returns. *)
Lemma bad_alloc_reaches_the_caller :
  exists c,
    Costmap2D_ctor CoreOnly = Done tt c /\
    updateWeights_on one_double_heap [2.0%float; 1.0%float] c
      = Threw_bad_alloc c /\
    updateWeights_on one_double_heap [7.5%float] c
      = Returned tt (with_weights [7.5%float] c).
Proof.
  exists (default_members CoreOnly); repeat split.
Qed.

(** C8, amended. [updateWeights] has no result value and no error result
    of its own. On the object reached from the constructor by any sequence
    of operations, for every vector [w]: when the copy gets its storage the
    call returns, exactly as [updateWeights w] does, and the stored vector
    is [w]; when it does not, the call throws [std::bad_alloc] to its
    caller, leaving the stored vector and the server member as they were
    and the mutex free, so that the object can still be written; in neither
    case is it left waiting for the mutex. Among threads, from every state
    reachable from the constructed object, a thread outside the function
    can always make its call, and every call already made can be run to its
    return. (The class has no read operation to speak of.) *)
Theorem updateWeights_returns_or_throws
  (h : Heap) (b : Build) (ops : list op) (w : vector_double) :
  exists c0 obs c,
    Costmap2D_ctor b = Done tt c0 /\
    run_ops ops c0 = Done obs c /\
    (assignable h (current_weights_ c) w = true ->
     updateWeights_on h w c = Returned tt (with_weights w c) /\
     updateWeights w c = Done tt (with_weights w c) /\
     current_weights_ (with_weights w c) = w) /\
    (assignable h (current_weights_ c) w = false ->
     updateWeights_on h w c = Threw_bad_alloc c /\
     mtx_ c = false /\
     forall w',
       assignable h (current_weights_ c) w' = true ->
       updateWeights_on h w' c = Returned tt (with_weights w' c)) /\
    updateWeights_on h w c <> Waiting /\
    forall tr s t,
      exec tr (start c0) = Some s ->
      (threads s t = Outside -> exists s', step t (Enter w) s = Some s') /\
      exists tr' s', exec tr' s = Some s' /\ threads s' t = Outside.
Proof.
  destruct (Costmap2D_ctor_returns b) as (c0 & Hctor & Hfree & _).
  destruct (run_ops_unlocked ops c0 Hfree) as (obs & c & Hrun & Hm & _).
  exists c0, obs, c.
  assert (Hret : forall v,
             assignable h (current_weights_ c) v = true ->
             updateWeights_on h v c = Returned tt (with_weights v c)).
  { intros v Hv; unfold updateWeights_on, lock_guard; rewrite Hm.
    cbn [current_weights_ with_mtx]; rewrite Hv.
    destruct c as [srv m cur]; cbn in *; subst m; reflexivity. }
  assert (Hthrow : assignable h (current_weights_ c) w = false ->
                   updateWeights_on h w c = Threw_bad_alloc c).
  { intros Hw; unfold updateWeights_on, lock_guard; rewrite Hm.
    cbn [current_weights_ with_mtx]; rewrite Hw.
    destruct c as [srv m cur]; cbn in *; subst m; reflexivity. }
  split; [exact Hctor|]. split; [exact Hrun|].
  split; [|split; [|split]].
  - intros Hw; split; [now apply Hret|].
    split; [now apply updateWeights_unlocked | reflexivity].
  - intros Hw; split; [now apply Hthrow|]. split; [exact Hm | exact Hret].
  - destruct (assignable h (current_weights_ c) w) eqn:Hw.
    + rewrite (Hret w Hw); discriminate.
    + rewrite (Hthrow eq_refl); discriminate.
  - intros tr s t Hexec; split.
    + intros Ht; rewrite (step_enter t w s Ht); eauto.
    + apply (call_can_complete c0).
      exact (exec_serialized c0 tr _ _ (start_serialized c0 Hfree) Hexec).
Qed.

(** On the heap with room for one [double], after a first write of
    [{7.5}]: a second one-element vector is stored, a two-element one is
    thrown back. *)
Lemma updateWeights_returns_or_throws_witness :
  exists c,
    run_ops [call_updateWeights [7.5%float]] (default_members CoreOnly)
      = Done [] c /\
    updateWeights_on one_double_heap [8.5%float] c
      = Returned tt (with_weights [8.5%float] c) /\
    updateWeights_on one_double_heap [2.0%float; 1.0%float] c
      = Threw_bad_alloc c.
Proof.
  destruct (updateWeights_returns_or_throws one_double_heap CoreOnly
              [call_updateWeights [7.5%float]] [8.5%float])
    as (c0 & obs & c & Hctor & Hrun & Hret & _).
  destruct (updateWeights_returns_or_throws one_double_heap CoreOnly
              [call_updateWeights [7.5%float]] [2.0%float; 1.0%float])
    as (c0' & obs' & c' & Hctor' & Hrun' & _ & Hthrow & _).
  inversion Hctor; subst c0; inversion Hctor'; subst c0'.
  cbn in Hrun, Hrun'; inversion Hrun; subst obs c.
  inversion Hrun'; subst obs' c'.
  eexists; split; [reflexivity|].
  split.
  - exact (proj1 (Hret eq_refl)).
  - exact (proj1 (Hthrow eq_refl)).
Defined.

(** ** Concurrent calls *)

(** C9, as the specification words it, fails for the reader: the class has
    no read operation that takes the mutex, and a read that goes to the
    member directly, as the test's does, can fall between two element stores
    of a running assignment. After [torn_trace] thread 1 holds the mutex and
    the member reads [{2.0, 1.0}]: first element from thread 1's
    [{2.0, 2.0}], second from thread 0's [{1.0, 1.0}], and equal to no
    vector ever passed to [updateWeights] nor to the initial empty one. *)
Lemma unlocked_read_sees_torn_vector :
  exists s,
    exec torn_trace (start (default_members CoreOnly)) = Some s /\
    threads s 1 = InAssign [2.0%float; 2.0%float] 1 /\
    mtx_ (cell s) = true /\
    unlocked_read s = [2.0%float; 1.0%float] /\
    whole_values (default_members CoreOnly) s =
      [[]; [2.0%float; 2.0%float]; [1.0%float; 1.0%float]] /\
    ~ In (unlocked_read s) (whole_values (default_members CoreOnly) s).
Proof.
  eexists; split; [vm_compute; reflexivity|].
  split; [reflexivity|].
  split; [reflexivity|].
  split; [reflexivity|].
  split; [reflexivity|].
  cbn; intros [H|[H|[H|[]]]]; discriminate.
Qed.

(** C9, amended. In every state that threads calling [updateWeights] can
    reach from an object whose mutex is free: at most one thread is between
    its [lock_guard] and the end of the function; a step that changes the
    stored vector belongs to that thread, and no other thread is inside, so
    the element stores of two calls never interleave; when that thread has
    finished its assignment the stored vector is its whole argument; and
    whenever the mutex is free, the stored vector is the initial one or a
    vector passed whole to some call. Nothing is promised to a read made
    while the mutex is held, and the class offers no read that takes it. *)
Theorem writes_serialized
  (c0 : Costmap2D) (tr : list (tid * action)) (s : system)
  (Hfree : mtx_ c0 = false)
  (Hexec : exec tr (start c0) = Some s) :
  (forall t u,
      in_critical_section (threads s t) = true ->
      in_critical_section (threads s u) = true -> t = u) /\
  (forall t a s',
      step t a s = Some s' ->
      current_weights_ (cell s') <> current_weights_ (cell s) ->
      in_critical_section (threads s t) = true /\
      forall u, u <> t -> in_critical_section (threads s u) = false) /\
  (forall t w, threads s t = AtScopeExit w -> unlocked_read s = w) /\
  (mtx_ (cell s) = false -> In (unlocked_read s) (whole_values c0 s)).
Proof.
  pose proof (exec_serialized c0 tr _ _ (start_serialized c0 Hfree) Hexec)
    as Hs.
  split; [exact (cs_exclusive c0 s Hs)|].
  split; [|split; [exact (exit_complete c0 s Hs) | exact (free_is_whole c0 s Hs)]].
  intros t a s' Hstep Hne.
  destruct (step_changes_weights t a s s' Hstep Hne) as (w & k & Ht).
  assert (Hcs : in_critical_section (threads s t) = true) by now rewrite Ht.
  split; [exact Hcs|].
  exact (others_outside_cs c0 s t Hs Hcs).
Qed.

Lemma writes_serialized_witness :
  mtx_ (default_members CoreOnly) = false /\
  exists s,
    exec (torn_trace ++ [(1, CopyElement); (1, SetSize); (1, Release)])
         (start (default_members CoreOnly)) = Some s /\
    mtx_ (cell s) = false /\
    unlocked_read s = [2.0%float; 2.0%float] /\
    In (unlocked_read s) (whole_values (default_members CoreOnly) s).
Proof.
  split; [reflexivity|].
  eexists; split; [vm_compute; reflexivity|].
  split; [reflexivity|].
  split; [reflexivity|].
  refine (proj2 (proj2 (proj2
    (writes_serialized (default_members CoreOnly)
       (torn_trace ++ [(1, CopyElement); (1, SetSize); (1, Release)])
       _ eq_refl _))) _); reflexivity.
Defined.

(** ** No validation *)

(** C10. [updateWeights] looks at neither the length nor the values of its
    argument: on an object whose mutex is free it returns for every vector
    and the object afterwards differs from before only in that the stored
    vector is the argument, element for element. *)
Theorem updateWeights_no_validation
  (w : vector_double) (c : Costmap2D) (Hfree : mtx_ c = false) :
  updateWeights w c = Done tt (with_weights w c) /\
  current_weights_ (with_weights w c) = w /\
  length (current_weights_ (with_weights w c)) = length w.
Proof.
  split; [now apply updateWeights_unlocked | split; reflexivity].
Qed.

(** The empty vector, one element, three elements, and values no weight
    should have (negative, infinite, not a number) are all stored as given. *)
Lemma updateWeights_no_validation_witness :
  mtx_ (default_members CoreOnly) = false /\
  current_weights_ (with_weights [] (default_members CoreOnly)) = [] /\
  updateWeights [7.5%float] (default_members CoreOnly)
    = Done tt (with_weights [7.5%float] (default_members CoreOnly)) /\
  updateWeights [1.0%float; 2.0%float; 3.0%float] (default_members CoreOnly)
    = Done tt (with_weights [1.0%float; 2.0%float; 3.0%float]
                            (default_members CoreOnly)) /\
  updateWeights [(-1.0)%float; infinity; nan] (default_members CoreOnly)
    = Done tt (with_weights [(-1.0)%float; infinity; nan]
                            (default_members CoreOnly)).
Proof.
  split; [reflexivity|].
  split; [exact (proj1 (proj2 (updateWeights_no_validation
                                 [] (default_members CoreOnly) eq_refl)))|].
  split; [exact (proj1 (updateWeights_no_validation
                          [7.5%float] (default_members CoreOnly) eq_refl))|].
  split.
  - exact (proj1 (updateWeights_no_validation
                    [1.0%float; 2.0%float; 3.0%float]
                    (default_members CoreOnly) eq_refl)).
  - exact (proj1 (updateWeights_no_validation
                    [(-1.0)%float; infinity; nan]
                    (default_members CoreOnly) eq_refl)).
Defined.

(** * Further properties of the code *)

(** ** Reads and writes in sequence *)

Lemma with_weights_current (c : Costmap2D) :
  with_weights (current_weights_ c) c = c.
Proof. destruct c; reflexivity. Qed.

(** X1. On an object whose mutex is free, a sequence of writes, callback
    invocations and reads returns, each read having seen the argument of the
    latest write before it (the vector at the start when there was none),
    and leaves the object changed in the stored vector only, which is the
    argument of the last write of the sequence. *)
Theorem reads_see_latest_write
  (ops : list op) (c : Costmap2D) (Hfree : mtx_ c = false) :
  run_ops ops c =
  Done (reads ops (current_weights_ c))
       (with_weights (last (written ops) (current_weights_ c)) c).
Proof.
  revert c Hfree; induction ops as [|o ops IH]; intros c Hc.
  - simpl; now rewrite with_weights_current.
  - destruct o as [w|cfg level|]; simpl run_ops; unfold bind.
    + rewrite (updateWeights_unlocked w c Hc), (IH (with_weights w c) Hc).
      simpl written; rewrite last_cons_default; reflexivity.
    + unfold reconfigCB; fold (config_weights cfg).
      rewrite (updateWeights_unlocked _ c Hc),
        (IH (with_weights (config_weights cfg) c) Hc).
      simpl written; rewrite last_cons_default; reflexivity.
    + unfold peek_current_weights; rewrite (IH c Hc); reflexivity.
Qed.

Lemma reads_see_latest_write_witness :
  mtx_ (default_members CoreOnly) = false /\
  run_ops [peek; call_updateWeights [2.0%float; 1.0%float]; peek;
           call_reconfigCB (mkConfig 3.0%float 4.0%float) 0%N; peek; peek;
           call_updateWeights []]
          (default_members CoreOnly) =
  Done [[]; [2.0%float; 1.0%float];
        [3.0%float; 4.0%float]; [3.0%float; 4.0%float]]
       (with_weights [] (default_members CoreOnly)).
Proof.
  split; [reflexivity|].
  exact (reads_see_latest_write
           [peek; call_updateWeights [2.0%float; 1.0%float]; peek;
            call_reconfigCB (mkConfig 3.0%float 4.0%float) 0%N; peek; peek;
            call_updateWeights []]
           (default_members CoreOnly) eq_refl).
Defined.

(** ** The fresh object, read as the test reads *)

(** X3. A freshly constructed object holds no weight at all or exactly two.
    Reading element 0 the way the test does, without a write first, has a
    defined result only in the build with reconfiguration support and only
    if the server handed a configuration to the callback during
    [setCallback]; the element is then the [obstacle_weight] of the last
    such configuration, element 1 its [inflation_weight], and no element 2
    exists. *)
Theorem fresh_cell_index (b : Build) :
  exists c,
    Costmap2D_ctor b = Done tt c /\
    (startup_written b = [] ->
     current_weights_ c = [] /\ index (current_weights_ c) 0 = None) /\
    (forall cfg level rest,
        b = HasDynamicReconfigure (mkServer (rest ++ [(cfg, level)])) ->
        index (current_weights_ c) 0 = Some (obstacle_weight cfg) /\
        index (current_weights_ c) 1 = Some (inflation_weight cfg) /\
        index (current_weights_ c) 2 = None) /\
    (length (current_weights_ c) = 0 \/ length (current_weights_ c) = 2).
Proof.
  destruct (Costmap2D_ctor_returns b) as (c & Hctor & _ & Hw).
  exists c; split; [exact Hctor|].
  split; [|split].
  - intros Hnone; rewrite Hw, Hnone; split; reflexivity.
  - intros cfg level rest ->.
    rewrite Hw; unfold startup_written; cbn [on_setCallback].
    rewrite map_app; cbn [map fst].
    rewrite last_last; repeat split.
  - rewrite Hw.
    pose proof (last_in_cons (startup_written b) []) as Hin.
    destruct Hin as [Hin|Hin]; [left; now rewrite <- Hin|].
    right; destruct b as [|srv]; [contradiction|].
    unfold startup_written in Hin; apply in_map_iff in Hin.
    destruct Hin as (d & Hd & _); unfold startup_written.
    now rewrite <- Hd.
Qed.

(** ** The server member *)

Lemma exec_keeps_server (tr : list (tid * action)) :
  forall s s',
    exec tr s = Some s' -> reconfig_srv_ (cell s') = reconfig_srv_ (cell s).
Proof.
  induction tr as [|[t a] tr IH]; intros s s' He; simpl in He.
  - now inversion He.
  - destruct (step t a s) as [s1|] eqn:Hstep; [|discriminate].
    rewrite (IH s1 s' He); clear He IH.
    unfold step in Hstep.
    destruct a as [w| | | |];
      destruct (threads s t) as [|w'|w' k|w']; try discriminate.
    + now inversion Hstep.
    + unfold lock_guard in Hstep.
      destruct (mtx_ (cell s)); [discriminate | now inversion Hstep].
    + destruct (nth_error w' k); [now inversion Hstep | discriminate].
    + destruct (Nat.eqb k (length w')); [now inversion Hstep | discriminate].
    + now inversion Hstep.
Qed.

(** X4. The callback is registered by the constructor and by nothing else:
    after construction the server member records a registered callback
    exactly in the build with reconfiguration support (the other build has
    no such member), and no sequence of writes, callback invocations and
    reads, nor any interleaving of threads running [updateWeights], changes
    that member. *)
Theorem server_member_set_once (b : Build) (ops : list op) :
  exists c0 obs c,
    Costmap2D_ctor b = Done tt c0 /\
    reconfig_srv_ c0 =
      match b with
      | CoreOnly => None
      | HasDynamicReconfigure _ => Some true
      end /\
    run_ops ops c0 = Done obs c /\
    reconfig_srv_ c = reconfig_srv_ c0 /\
    forall tr s,
      exec tr (start c0) = Some s -> reconfig_srv_ (cell s) = reconfig_srv_ c0.
Proof.
  assert (Hctor : exists c0,
             Costmap2D_ctor b = Done tt c0 /\ mtx_ c0 = false /\
             reconfig_srv_ c0 =
               match b with
               | CoreOnly => None
               | HasDynamicReconfigure _ => Some true
               end).
  { destruct b as [|srv].
    - exists (default_members CoreOnly); repeat split.
    - unfold Costmap2D_ctor, setCallback, bind.
      rewrite deliver_as_ops.
      destruct (run_ops_unlocked
                  (map (fun d => call_reconfigCB (fst d) (snd d))
                       (on_setCallback srv))
                  (with_callback (default_members (HasDynamicReconfigure srv)))
                  eq_refl)
        as (obs & c' & Hr & Hm & Hs & _).
      rewrite Hr; exists c'; repeat split; auto. }
  destruct Hctor as (c0 & Hctor & Hfree & Hsrv).
  destruct (run_ops_unlocked ops c0 Hfree) as (obs & c & Hrun & _ & Hs & _).
  exists c0, obs, c; repeat split; auto.
  intros tr s He; exact (exec_keeps_server tr _ _ He).
Qed.

Lemma server_member_set_once_witness :
  exists s,
    exec torn_trace (start (default_members CoreOnly)) = Some s /\
    reconfig_srv_ (cell s) = None.
Proof.
  destruct (server_member_set_once CoreOnly [] )
    as (c0 & obs & c & Hctor & Hsrv & _ & _ & Hthreads).
  inversion Hctor; subst c0.
  eexists; split; [vm_compute; reflexivity|].
  refine (Hthreads torn_trace _ _); vm_compute; reflexivity.
Defined.

(** ** The mutex among threads *)

(** X5. The [lock_guard] never leaks the mutex and never lets go of it
    early: in every state threads running [updateWeights] can reach from an
    object whose mutex is free, the mutex is held exactly when some thread
    is between its [lock_guard] and the end of the function; once every
    thread is outside, the mutex is free. *)
Theorem mutex_held_iff_inside
  (c0 : Costmap2D) (tr : list (tid * action)) (s : system)
  (Hfree : mtx_ c0 = false)
  (Hexec : exec tr (start c0) = Some s) :
  (mtx_ (cell s) = true <->
   exists t, in_critical_section (threads s t) = true) /\
  ((forall t, threads s t = Outside) -> mtx_ (cell s) = false).
Proof.
  pose proof (exec_serialized c0 tr _ _ (start_serialized c0 Hfree) Hexec)
    as Hs.
  split; [split|].
  - exact (mutex_has_holder c0 s Hs).
  - intros [t Ht]; exact (cs_holds_mutex c0 s Hs t Ht).
  - intros Hout.
    destruct (mtx_ (cell s)) eqn:Hm; [|reflexivity].
    destruct (mutex_has_holder c0 s Hs Hm) as [t Ht].
    rewrite (Hout t) in Ht; discriminate.
Qed.

Lemma mutex_held_iff_inside_witness :
  mtx_ (default_members CoreOnly) = false /\
  exists s,
    exec torn_trace (start (default_members CoreOnly)) = Some s /\
    in_critical_section (threads s 1) = true /\
    mtx_ (cell s) = true.
Proof.
  split; [reflexivity|].
  eexists; split; [vm_compute; reflexivity|].
  split; [reflexivity|].
  refine (proj2 (proj1 (mutex_held_iff_inside (default_members CoreOnly)
                          torn_trace _ eq_refl _)) _).
  - vm_compute; reflexivity.
  - exists 1; reflexivity.
Defined.

(** X6. While one thread is inside, the others can only arrive: in a
    reachable state where thread [t] is between its [lock_guard] and the end
    of the function, the only step open to another thread is to enter
    [updateWeights]; it cannot take the mutex, store an element, set the
    size or release, and its entering changes neither the object nor where
    [t] stands. *)
Theorem others_wait_at_lock_guard
  (c0 : Costmap2D) (tr : list (tid * action)) (s s' : system)
  (t u : tid) (a : action)
  (Hfree : mtx_ c0 = false)
  (Hexec : exec tr (start c0) = Some s)
  (Hin : in_critical_section (threads s t) = true)
  (Hne : u <> t)
  (Hstep : step u a s = Some s') :
  (exists w, a = Enter w /\ threads s u = Outside) /\
  step u Acquire s = None /\
  cell s' = cell s /\
  threads s' t = threads s t.
Proof.
  pose proof (exec_serialized c0 tr _ _ (start_serialized c0 Hfree) Hexec)
    as Hs.
  pose proof (others_outside_cs c0 s t Hs Hin u Hne) as Hu.
  pose proof (cs_holds_mutex c0 s Hs t Hin) as Hm.
  assert (Hacq : step u Acquire s = None).
  { unfold step, lock_guard; rewrite Hm.
    destruct (threads s u); reflexivity. }
  unfold step in Hstep.
  destruct a as [w| | | |];
    destruct (threads s u) as [|w'|w' k|w'] eqn:Hpc; try discriminate.
  - inversion Hstep; subst s'; cbn.
    split; [exists w; now split|].
    split; [exact Hacq|].
    split; [reflexivity|].
    apply upd_other; intros ->; now apply Hne.
  - unfold lock_guard in Hstep; rewrite Hm in Hstep; discriminate.
Qed.

Lemma others_wait_at_lock_guard_witness :
  exists s s',
    exec torn_trace (start (default_members CoreOnly)) = Some s /\
    in_critical_section (threads s 1) = true /\
    step 0 (Enter [3.0%float]) s = Some s' /\
    step 0 Acquire s' = None /\
    cell s' = cell s.
Proof.
  eexists; eexists.
  split; [vm_compute; reflexivity|].
  split; [reflexivity|].
  split; [reflexivity|].
  split; [reflexivity|].
  refine (proj1 (proj2 (proj2
    (others_wait_at_lock_guard (default_members CoreOnly) torn_trace _ _
       1 0 (Enter [3.0%float]) eq_refl _ _ _ _)))).
  - vm_compute; reflexivity.
  - reflexivity.
  - discriminate.
  - reflexivity.
Defined.

(** ** The last call to return is the one that shows *)

Lemma last_returned_tracks (c0 : Costmap2D) (tr : list (tid * action)) :
  forall s arg last s',
    serialized c0 s ->
    (forall t w, argument (threads s t) = Some w -> arg t = Some w) ->
    (mtx_ (cell s) = false -> current_weights_ (cell s) = last) ->
    exec tr s = Some s' ->
    mtx_ (cell s') = false ->
    current_weights_ (cell s') = last_returned tr arg last.
Proof.
  induction tr as [|[t a] tr IH]; intros s arg last s' Hs Harg Hlast He Hm.
  - simpl in He; inversion He; subst s'; now apply Hlast.
  - rewrite exec_cons in He.
    destruct (step t a s) as [s1|] eqn:Hstep; [|discriminate].
    pose proof (step_serialized c0 s t Hs a s1 Hstep) as Hs1.
    unfold step in Hstep.
    destruct a as [w| | | |];
      destruct (threads s t) as [|w'|w' k|w'] eqn:Ht; try discriminate;
      cbn [last_returned].
    + inversion Hstep; subst s1; clear Hstep.
      eapply IH; [exact Hs1 | | | exact He | exact Hm]; cbn.
      * intros u w0 Hu; destruct (Nat.eqb_spec u t) as [->|Hne].
        -- rewrite upd_same in Hu; exact Hu.
        -- rewrite upd_other in Hu by exact Hne; now apply Harg.
      * exact Hlast.
    + unfold lock_guard in Hstep.
      destruct (mtx_ (cell s)) eqn:Hms; [discriminate|].
      inversion Hstep; subst s1; clear Hstep.
      eapply IH; [exact Hs1 | | | exact He | exact Hm]; cbn.
      * intros u w0 Hu; thread_cases u t; [|now apply Harg].
        apply Harg; rewrite Ht; exact Hu.
      * discriminate.
    + destruct (nth_error w' k) as [x|]; [|discriminate].
      inversion Hstep; subst s1; clear Hstep.
      eapply IH; [exact Hs1 | | | exact He | exact Hm]; cbn.
      * intros u w0 Hu; thread_cases u t; [|now apply Harg].
        apply Harg; rewrite Ht; exact Hu.
      * rewrite (cs_holds_mutex c0 s Hs t) by now rewrite Ht.
        discriminate.
    + destruct (Nat.eqb k (length w')); [|discriminate].
      inversion Hstep; subst s1; clear Hstep.
      eapply IH; [exact Hs1 | | | exact He | exact Hm]; cbn.
      * intros u w0 Hu; thread_cases u t; [|now apply Harg].
        apply Harg; rewrite Ht; exact Hu.
      * rewrite (cs_holds_mutex c0 s Hs t) by now rewrite Ht.
        discriminate.
    + inversion Hstep; subst s1; clear Hstep.
      rewrite (Harg t w') by now rewrite Ht.
      eapply IH; [exact Hs1 | | | exact He | exact Hm]; cbn.
      * intros u w0 Hu; thread_cases u t; [discriminate | now apply Harg].
      * intros _; exact (exit_complete c0 s Hs t w' Ht).
Qed.

(** X7. Whenever the mutex is free, the object is the one the threads
    started from with its vector replaced by the argument of the call that
    returned last, whichever thread made it and however the calls
    overlapped; before any call has returned it is the start object
    unchanged. *)
Theorem free_mutex_shows_last_returned
  (c0 : Costmap2D) (tr : list (tid * action)) (s : system)
  (Hfree : mtx_ c0 = false)
  (Hexec : exec tr (start c0) = Some s)
  (Hm : mtx_ (cell s) = false) :
  cell s =
  with_weights (last_returned tr (fun _ => None) (current_weights_ c0)) c0.
Proof.
  assert (Hw : current_weights_ (cell s) =
               last_returned tr (fun _ => None) (current_weights_ c0)).
  { apply (last_returned_tracks c0 tr (start c0) _ _ s).
    - exact (start_serialized c0 Hfree).
    - cbn; discriminate.
    - reflexivity.
    - exact Hexec.
    - exact Hm. }
  rewrite <- Hw.
  pose proof (exec_keeps_server tr _ _ Hexec) as Hsrv.
  destruct (cell s) as [srv m v]; destruct c0 as [srv0 m0 v0].
  cbn in *; subst; reflexivity.
Qed.

(** Thread 1 enters first with [{2.0, 2.0}] but thread 0, entering later
    with [{1.0, 1.0}], takes the mutex first; thread 1 returns last and its
    vector is the one that shows. *)
Lemma free_mutex_shows_last_returned_witness :
  mtx_ (default_members CoreOnly) = false /\
  exists s,
    exec ([(1, Enter [2.0%float; 2.0%float]);
           (0, Enter [1.0%float; 1.0%float]);
           (0, Acquire); (0, CopyElement); (0, CopyElement); (0, SetSize);
           (0, Release);
           (1, Acquire); (1, CopyElement); (1, CopyElement); (1, SetSize);
           (1, Release)])
         (start (default_members CoreOnly)) = Some s /\
    mtx_ (cell s) = false /\
    cell s = with_weights [2.0%float; 2.0%float] (default_members CoreOnly).
Proof.
  split; [reflexivity|].
  eexists; split; [vm_compute; reflexivity|].
  split; [reflexivity|].
  refine (free_mutex_shows_last_returned (default_members CoreOnly)
            [(1, Enter [2.0%float; 2.0%float]);
             (0, Enter [1.0%float; 1.0%float]);
             (0, Acquire); (0, CopyElement); (0, CopyElement); (0, SetSize);
             (0, Release);
             (1, Acquire); (1, CopyElement); (1, CopyElement); (1, SetSize);
             (1, Release)] _ eq_refl _ _).
  - vm_compute; reflexivity.
  - reflexivity.
Defined.
